(** * redisgo: a singleton wrapper around a pooled Redis client

    Shallow embedding of [redis.go] (package [redisgo]) and the properties
    of its lifecycle ([New], [GetInstance]) and of its typed operations
    ([Get], [Set], [Expire], [Hmset], [Hmget], the sorted-set ranges).

    The wrapper owns no algorithm of its own: each method borrows a
    connection from the pool, sends commands and converts the reply.  The
    pool, the connection and the remote store, as well as [encoding/json]
    and redigo's struct scanner, are collaborators of the package; they are
    gathered in the record [Collab] and every property of an operation is
    proved for an arbitrary collaborator. *)

From Stdlib Require Import ZArith Lia List Ascii String.
From stdpp Require Import base strings gmap.
Import ListNotations.

Local Open Scope Z_scope.

(** ** Package-level state and lifecycle *)

Module Lifecycle.

(** [redis.Pool] as [New] fills it in: the two bounds, and the variables
    captured by the [Dial] closure. *)
Record Pool := mkPool {
  MaxIdle : Z;
  IdleTimeout : Z;            (* seconds *)
  dial_ip : string;
  dial_port : Z;
  dial_password : string;
  dial_db : Z
}.

(** [type Redis struct { pool *redis.Pool }] *)
Record Redis := mkRedis { pool : Pool }.

(** A [*Redis] is an address in the store of allocated [Redis] objects. *)
Definition ptr := nat.

(** The package variables [redisInstance] and [once], together with the
    objects allocated by [&Redis{...}] and the signal watchers started by
    [closePool] (one entry per goroutine, naming the receiver it closes). *)
Record globals := mkGlobals {
  heap : list Redis;
  redisInstance : option ptr;      (* [None] is the nil pointer *)
  once : bool;                     (* the done flag of [sync.Once] *)
  watchers : list ptr
}.

(** State of a freshly started process: zero values everywhere. *)
Definition start : globals :=
  {| heap := []; redisInstance := None; once := false; watchers := [] |}.

(** [func (r *Redis) closePool()]: registers the signals and starts the
    goroutine that closes [r.pool] and exits. *)
Definition closePool (r : ptr) (g : globals) : globals :=
  {| heap := heap g; redisInstance := redisInstance g; once := once g;
     watchers := watchers g ++ [r] |}.

(** The function literal passed to [once.Do] in [New]. *)
Definition New_body (ip : string) (port : Z) (password : string) (db : Z)
    (g : globals) : globals :=
  let pool := {| MaxIdle := 3; IdleTimeout := 240;
                 dial_ip := ip; dial_port := port;
                 dial_password := password; dial_db := db |} in
  let r := length (heap g) in
  let g1 := {| heap := heap g ++ [{| pool := pool |}];
               redisInstance := Some r;
               once := once g; watchers := watchers g |} in
  closePool r g1.

(** [sync.Once.Do]: runs [f] only while the flag is unset, and sets it. *)
Definition once_Do (f : globals -> globals) (g : globals) : globals :=
  if once g then g
  else let g' := f g in
       {| heap := heap g'; redisInstance := redisInstance g';
          once := true; watchers := watchers g' |}.

(** [func New(ip string, port int, password string, db int) *Redis] *)
Definition New (ip : string) (port : Z) (password : string) (db : Z)
    (g : globals) : option ptr * globals :=
  let g' := once_Do (New_body ip port password db) g in
  (redisInstance g', g').

(** Outcome of a call that may panic. *)
Inductive outcome (A : Type) :=
| Returns (a : A)
| Panics (msg : string).
Arguments Returns {A} a.
Arguments Panics {A} msg.

(** [func GetInstance() *Redis] *)
Definition GetInstance (g : globals) : outcome ptr :=
  match redisInstance g with
  | None => Panics "请先调用New方法创建实例"
  | Some r => Returns r
  end.

(** Arguments of one call to [New]. *)
Record call := mkCall {
  c_ip : string; c_port : Z; c_password : string; c_db : Z }.

Definition New_call (c : call) : globals -> option ptr * globals :=
  New (c_ip c) (c_port c) (c_password c) (c_db c).

(** A sequence of calls to [New], with the pointer each one returns. *)
Fixpoint New_seq (cs : list call) (g : globals) : list (option ptr) * globals :=
  match cs with
  | [] => ([], g)
  | c :: cs' =>
      let '(r, g1) := New_call c g in
      let '(rs, g2) := New_seq cs' g1 in
      (r :: rs, g2)
  end.

(** Number of pool factories built so far: one per allocated handle. *)
Definition handles (g : globals) : nat := length (heap g).

End Lifecycle.

(** ** The parts of [strconv] that redigo uses on replies and arguments

    Go's [int] is taken to be 64 bits wide, as on every platform the
    package is built for. *)

Module strconv.

Definition intSize : Z := 64.
Definition maxUint64 : Z := 2 ^ 64 - 1.
Definition minInt : Z := - 2 ^ 63.
Definition maxInt : Z := 2 ^ 63 - 1.

(** The values an [int] may hold. *)
Definition is_int (n : Z) : Prop := minInt <= n <= maxInt.

Definition digit_char (d : Z) : ascii := ascii_of_nat (Z.to_nat (48 + d)).

Definition digit_val (c : ascii) : option Z :=
  let n := Z.of_nat (nat_of_ascii c) in
  if (48 <=? n) && (n <=? 57) then Some (n - 48) else None.

(** The digit loop of [formatBits] in base 10: digits are produced from
    the least significant one and written in front of what is already
    there.  A 64-bit value has at most twenty digits. *)
Fixpoint formatBits (fuel : nat) (u : Z) (a : string) : string :=
  match fuel with
  | O => a
  | S fuel' =>
      let a' := String (digit_char (u mod 10)) a in
      if u <? 10 then a' else formatBits fuel' (u / 10) a'
  end.

(** [strconv.FormatInt(i, 10)], which is also [strconv.Itoa]. *)
Definition Itoa (i : Z) : string :=
  if i <? 0 then String "-" (formatBits 20 (- i) EmptyString)
  else formatBits 20 i EmptyString.

Inductive NumError := ErrSyntax | ErrRange.

(** The loop of [ParseUint] in base 10 with 64 bits: a character that is
    not a digit is a syntax error, and a value that leaves the range is
    reported at the digit where it does, with the largest value. *)
Fixpoint ParseUint_loop (s : string) (n : Z) : Z * option NumError :=
  match s with
  | EmptyString => (n, None)
  | String c s' =>
      match digit_val c with
      | None => (0, Some ErrSyntax)
      | Some d =>
          if maxUint64 <? n * 10 + d then (maxUint64, Some ErrRange)
          else ParseUint_loop s' (n * 10 + d)
      end
  end.

Definition ParseUint (s : string) : Z * option NumError :=
  match s with
  | EmptyString => (0, Some ErrSyntax)
  | _ => ParseUint_loop s 0
  end.

(** [strconv.ParseInt(s, 10, 0)] *)
Definition ParseInt (s : string) : Z * option NumError :=
  match s with
  | EmptyString => (0, Some ErrSyntax)
  | String c0 s1 =>
      let '(neg, s') :=
        if Ascii.eqb c0 "+" then (false, s1)
        else if Ascii.eqb c0 "-" then (true, s1)
        else (false, s) in
      let '(un, err) := ParseUint s' in
      match err with
      | Some ErrSyntax => (0, err)
      | _ =>
          let cutoff := 2 ^ (intSize - 1) in
          if negb neg && (cutoff <=? un) then (cutoff - 1, Some ErrRange)
          else if neg && (cutoff <? un) then (- cutoff, Some ErrRange)
          else (if neg then - un else un, None)
      end
  end.

End strconv.

(** ** Values, errors and replies as redigo passes them around *)

(** A Go [error], nil being [None] of [option error]. *)
Inductive error :=
| ErrNil                                   (* redis.ErrNil *)
| NumError (e : strconv.NumError)          (* from strconv *)
| Error (msg : string).                    (* redis.Error, or any other, by message *)

(** A reply as [Conn.Do] hands it over: nil, an integer, a bulk string, a
    status line, an array, or an error reply met inside an array. *)
#[warnings="-register-all"]
Inductive reply :=
| RNil
| RInt64 (n : Z)
| RBytes (b : string)
| RString (s : string)
| RValues (vs : list reply)
| RError (msg : string).

(** A Go value behind [interface{}], by dynamic type: the types the
    package tells apart, and all the others. *)
Inductive value (other : Type) :=
| VString (s : string)
| VInt (n : Z)
| VInt64 (n : Z)
| VOther (o : other).
Arguments VString {other} s.
Arguments VInt {other} n.
Arguments VInt64 {other} n.
Arguments VOther {other} o.

(** ** The reply helpers of redigo *)

Module redis.

Definition unexpected (what : string) : error :=
  Error ("redigo: unexpected type for " +:+ what).

(** [redis.String] *)
Definition String (r : reply * option error) : string * option error :=
  let '(reply, err) := r in
  match err with
  | Some _ => (EmptyString, err)
  | None =>
      match reply with
      | RBytes b => (b, None)
      | RString s => (s, None)
      | RNil => (EmptyString, Some ErrNil)
      | RError msg => (EmptyString, Some (Error msg))
      | _ => (EmptyString, Some (unexpected "String"))
      end
  end.

(** [redis.Int]: the conversion of an [int64] reply to [int] loses nothing
    on 64 bits; a bulk string is parsed in base 10. *)
Definition Int (r : reply * option error) : Z * option error :=
  let '(reply, err) := r in
  match err with
  | Some _ => (0, err)
  | None =>
      match reply with
      | RInt64 n => (n, None)
      | RBytes b =>
          let '(n, e) := strconv.ParseInt b in
          (n, option_map NumError e)
      | RNil => (0, Some ErrNil)
      | RError msg => (0, Some (Error msg))
      | _ => (0, Some (unexpected "Int"))
      end
  end.

(** [strconv.ParseBool] *)
Definition ParseBool (s : string) : bool * option error :=
  if existsb (String.eqb s) ["1"; "t"; "T"; "TRUE"; "true"; "True"]%string
  then (true, None)
  else if existsb (String.eqb s) ["0"; "f"; "F"; "FALSE"; "false"; "False"]%string
  then (false, None)
  else (false, Some (NumError strconv.ErrSyntax)).

(** [redis.Bool] *)
Definition Bool (r : reply * option error) : bool * option error :=
  let '(reply, err) := r in
  match err with
  | Some _ => (false, err)
  | None =>
      match reply with
      | RInt64 n => (negb (n =? 0), None)
      | RBytes b => ParseBool b
      | RNil => (false, Some ErrNil)
      | RError msg => (false, Some (Error msg))
      | _ => (false, Some (unexpected "Bool"))
      end
  end.

(** [redis.Values] *)
Definition Values (r : reply * option error) : list reply * option error :=
  let '(reply, err) := r in
  match err with
  | Some _ => ([], err)
  | None =>
      match reply with
      | RValues vs => (vs, None)
      | RNil => ([], Some ErrNil)
      | RError msg => ([], Some (Error msg))
      | _ => ([], Some (unexpected "Values"))
      end
  end.

(** [redis.Args.Add] *)
Definition Args_Add {other} (args : list (value other)) (v : value other) :=
  args ++ [v].

(** How a scalar argument travels to the store: text verbatim, integers
    in decimal.  Other arguments are printed by [fmt]; the package never
    sends one where it matters here. *)
Definition wire {other} (v : value other) : option string :=
  match v with
  | VString s => Some s
  | VInt n | VInt64 n => Some (strconv.Itoa n)
  | VOther _ => None
  end.

End redis.

(** ** The wrapper *)

Module redisgo.

(** What the package relies on and does not implement: the pool with its
    connections and the store behind them ([remote]), the caller's
    variables that output arguments point to ([memory]), [encoding/json],
    and redigo's flattening and scanning of structured values.
    [json_Marshal] yields either the encoding or an error, never both; its
    byte slice is nil, hence the empty text, when it fails. *)
Class Collab := {
  other : Type;
  remote : Type;
  conn : Type;
  memory : Type;
  pool_Get : remote -> conn * remote;
  conn_Do : conn -> string -> list (value other) -> remote ->
            (reply * option error) * remote;
  conn_Close : conn -> remote -> remote;
  json_Marshal : value other -> memory -> string + error;
  json_Unmarshal : string -> value other -> memory -> option error * memory;
  flatten : value other -> memory -> list (value other);
  ScanStruct : list reply -> value other -> memory -> option error * memory
}.

Section World.
Context {C : Collab}.

Local Abbreviation val := (value other).

(** What a method does that an observer can tell: the commands sent, the
    decoders run on the caller's output, the lines printed. *)
Inductive event :=
| EvDo (commandName : string) (args : list val)
| EvUnmarshal (text : string) (dest : val)
| EvScanStruct (src : list reply) (dest : val)
| EvPrintln (e : error).

Record world := mkWorld {
  w_remote : remote;
  w_memory : memory;
  w_trace : list event
}.

(** Go statements as state transformers over the world. *)
Definition M (A : Type) : Type := world -> A * world.

Definition ret {A} (a : A) : M A := fun w => (a, w).

Definition bind {A B} (m : M A) (k : A -> M B) : M B :=
  fun w => let '(a, w1) := m w in k a w1.

End World.

Declare Scope go_scope.
Delimit Scope go_scope with go.
Notation "x <- m ;; k" := (bind m (fun x => k))
  (at level 20, m at level 99, k at level 200, only parsing) : go_scope.
Notation "' pat <- m ;; k" := (bind m (fun x => match x with pat => k end))
  (at level 20, pat pattern, m at level 99, k at level 200, only parsing)
  : go_scope.
Local Open Scope go_scope.

Section Operations.
Context {C : Collab}.

Local Abbreviation val := (value other).

Definition emit (e : event) : M unit :=
  fun w => (tt, {| w_remote := w_remote w; w_memory := w_memory w;
                   w_trace := w_trace w ++ [e] |}).

Definition read_memory : M memory := fun w => (w_memory w, w).

(** Borrow, send, and release on the way out (the deferred [Close]), as
    [Do] does, seen from the pool's side only. *)
Definition Do_remote (commandName : string) (args : list val) (r : remote)
    : (reply * option error) * remote :=
  let '(c, r1) := pool_Get r in
  let '(res, r2) := conn_Do c commandName args r1 in
  (res, conn_Close c r2).

(** [func (r *Redis) Do(commandName string, args ...interface{})] *)
Definition Do (commandName : string) (args : list val)
    : M (reply * option error) :=
  fun w =>
    let '(res, r') := Do_remote commandName args (w_remote w) in
    (res, {| w_remote := r'; w_memory := w_memory w;
             w_trace := w_trace w ++ [EvDo commandName args] |}).

(** [json.Unmarshal([]byte(text), dest)] *)
Definition Unmarshal (text : string) (dest : val) : M (option error) :=
  fun w =>
    let '(err, m') := json_Unmarshal text dest (w_memory w) in
    (err, {| w_remote := w_remote w; w_memory := m';
             w_trace := w_trace w ++ [EvUnmarshal text dest] |}).

(** [redis.ScanStruct(src, dest)] *)
Definition Scan (src : list reply) (dest : val) : M (option error) :=
  fun w =>
    let '(err, m') := ScanStruct src dest (w_memory w) in
    (err, {| w_remote := w_remote w; w_memory := m';
             w_trace := w_trace w ++ [EvScanStruct src dest] |}).

(** [fmt.Println(err)] *)
Definition Println (e : error) : M unit := emit (EvPrintln e).

(** [func (r *Redis) GetString(key string) (string, error)] *)
Definition GetString (key : string) : M (string * option error) :=
  x <- Do "GET" [VString key] ;; ret (redis.String x).

(** [func (r *Redis) GetInt(key string) (int, error)] *)
Definition GetInt (key : string) : M (Z * option error) :=
  x <- Do "GET" [VString key] ;; ret (redis.Int x).

(** [func (r *Redis) Get(key string, val interface{}) (err error)]: the
    result of [json.Unmarshal] is dropped, and the bare [return] hands
    back the [err] of the fetch. *)
Definition Get (key : string) (dest : val) : M (option error) :=
  '(reply, err) <- GetString key ;;
  match err with
  | Some _ => ret err
  | None => _ <- Unmarshal reply dest ;; ret err
  end.

(** [func (r *Redis) Set(key string, val interface{}, expire int)
    (reply interface{}, err error)].  The result [reply] is never
    assigned.  In the [default] clause [b, err := json.Marshal(v)]
    declares an [err] of the clause, which the next assignment writes to;
    the bare [return] after the switch hands back the result [err], still
    nil. *)
Definition Set_ (key : string) (v : val) (expire : Z)
    : M (reply * option error) :=
  match v with
  | VString s =>
      '(_, err) <- Do "SETEX" [VString key; VInt expire; VString s] ;;
      ret (RNil, err)
  | VInt n =>
      '(_, err) <- Do "SETEX" [VString key; VInt expire; VInt n] ;;
      ret (RNil, err)
  | _ =>
      mem <- read_memory ;;
      let '(b, err1) := match json_Marshal v mem with
                        | inl b => (b, None)
                        | inr e => (EmptyString, Some e)
                        end in
      '(_, err1') <- Do "SETEX" [VString key; VInt expire; VString b] ;;
      ret (RNil, None)
  end.

(** [func (r *Redis) Expire(key string, expire int) error] *)
Definition Expire (key : string) (expire : Z) : M (option error) :=
  x <- Do "EXPIRE" [VString key; VInt expire] ;;
  let '(_, err) := redis.Bool x in
  ret err.

(** [redis.Args{}.Add(key).AddFlat(val)] *)
Definition Hmset_args (key : string) (v : val) (mem : memory) : list val :=
  redis.Args_Add [] (VString key) ++ flatten v mem.

(** [func (r *Redis) Hmset(key string, val interface{}, expire int)
    (err error)] *)
Definition Hmset (key : string) (v : val) (expire : Z) : M (option error) :=
  mem <- read_memory ;;
  '(_, err) <- Do "HMSET" (Hmset_args key v mem) ;;
  match err with
  | Some _ => ret err
  | None =>
      if 0 <? expire then
        '(_, err) <- Do "EXPIRE" [VString key; VInt64 expire] ;;
        ret err
      else ret err
  end.

(** [func (r *Redis) Hmget(key string, val interface{}) error]: the [err]
    tested and printed is the one declared by the [if] statement; the
    function returns the outer one. *)
Definition Hmget (key : string) (dest : val) : M (option error) :=
  '(v, err) <- (x <- Do "HGETALL" [VString key] ;; ret (redis.Values x)) ;;
  match err with
  | Some _ => ret err
  | None =>
      err' <- Scan v dest ;;
      _ <- match err' with
           | Some e => Println e
           | None => ret tt
           end ;;
      ret err
  end.

(** [Zrange], [Zrevrange], [ZrangeByScore], [ZrevrangeByScore] *)
Definition Zrange (key : string) (from to : Z) : M (reply * option error) :=
  Do "ZRANGE" [VString key; VInt from; VInt to; VString "WITHSCORES"].

Definition Zrevrange (key : string) (from to : Z) : M (reply * option error) :=
  Do "ZREVRANGE" [VString key; VInt from; VInt to; VString "WITHSCORES"].

Definition ZrangeByScore (key : string) (from to offset count : Z)
    : M (reply * option error) :=
  Do "ZRANGEBYSCORE" [VString key; VInt from; VInt to; VString "WITHSCORES";
                      VString "LIMIT"; VInt offset; VInt count].

Definition ZrevrangeByScore (key : string) (from to offset count : Z)
    : M (reply * option error) :=
  Do "ZREVRANGEBYSCORE" [VString key; VInt from; VInt to; VString "WITHSCORES";
                         VString "LIMIT"; VInt offset; VInt count].

(** An operation that is one command carrying a given option: it returns
    what the connection replied, untouched, and leaves in the world only
    the trace of that command and the pool's own move. *)
Definition passes_through (op : M (reply * option error))
    (commandName option : string) : Prop :=
  forall w, exists args : list val,
    In (VString option) args /\
    fst (op w) = fst (Do_remote commandName args (w_remote w)) /\
    w_remote (snd (op w)) = snd (Do_remote commandName args (w_remote w)) /\
    w_memory (snd (op w)) = w_memory w /\
    w_trace (snd (op w)) = w_trace w ++ [EvDo commandName args].

(** What the package expects of the store behind the pool: once a
    [SETEX] has been acknowledged, the next [GET] of that key through the
    pool replies with the bytes that were written. *)
Definition keeps_text : Prop :=
  forall (key : string) (expire : Z) (v : val) (text : string) rep r r1,
    redis.wire v = Some text ->
    Do_remote "SETEX" [VString key; VInt expire; v] r = ((rep, None), r1) ->
    fst (Do_remote "GET" [VString key] r1) = (RBytes text, None).

End Operations.

End redisgo.

(** ** A reference collaborator

    A small store with the documented behaviour of the commands the
    package sends, a pool that is either up or down, and a caller whose
    variables hold an integer or a record of text fields.  It instantiates
    [Collab], so that the properties below can be exercised on concrete
    runs. *)

Module Reference.
Import redisgo.

Inductive cell :=
| CInt (n : Z)
| CFields (fs : list (string * string)).

(** Values of other dynamic types: a record of text fields, a channel
    (which [encoding/json] cannot encode), a pointer to a caller's
    variable. *)
Inductive ref_other :=
| OFields (fs : list (string * string))
| OChan
| ORef (addr : nat).

Abbreviation rval := (value ref_other).

Record store := mkStore {
  strings : gmap string string;
  hashes : gmap string (gmap string string);
  ttls : gmap string Z;
  up : bool
}.

Definition empty_store : store :=
  {| strings := ∅; hashes := ∅; ttls := ∅; up := true |}.

Definition server_error (msg : string) : reply * option error :=
  (RError msg, Some (Error msg)).

Definition has_key (k : string) (s : store) : bool :=
  bool_decide (is_Some (strings s !! k)) || bool_decide (is_Some (hashes s !! k)).

Fixpoint pairs (l : list string) : option (list (string * string)) :=
  match l with
  | [] => Some []
  | f :: v :: l' => option_map (cons (f, v)) (pairs l')
  | _ => None
  end.

Definition unpairs (l : list (string * string)) : list reply :=
  flat_map (fun fv => [RBytes (fst fv); RBytes (snd fv)]) l.

(** The store's answer to one command, arguments as text. *)
Definition serve (commandName : string) (args : list string) (s : store)
    : (reply * option error) * store :=
  if String.eqb commandName "SETEX" then
    match args with
    | [k; secs; v] =>
        match strconv.ParseInt secs with
        | (n, None) =>
            if n <=? 0 then (server_error "ERR invalid expire time in setex", s)
            else ((RString "OK", None),
                  {| strings := <[k := v]> (strings s);
                     hashes := delete k (hashes s);
                     ttls := <[k := n]> (ttls s); up := up s |})
        | _ => (server_error "ERR value is not an integer or out of range", s)
        end
    | _ => (server_error "ERR wrong number of arguments for 'setex' command", s)
    end
  else if String.eqb commandName "GET" then
    match args with
    | [k] =>
        match hashes s !! k, strings s !! k with
        | Some _, _ => (server_error "WRONGTYPE Operation against a key holding the wrong kind of value", s)
        | None, Some v => ((RBytes v, None), s)
        | None, None => ((RNil, None), s)
        end
    | _ => (server_error "ERR wrong number of arguments for 'get' command", s)
    end
  else if String.eqb commandName "EXPIRE" then
    match args with
    | [k; secs] =>
        match strconv.ParseInt secs with
        | (n, None) =>
            if has_key k s
            then ((RInt64 1, None),
                  {| strings := strings s; hashes := hashes s;
                     ttls := <[k := n]> (ttls s); up := up s |})
            else ((RInt64 0, None), s)
        | _ => (server_error "ERR value is not an integer or out of range", s)
        end
    | _ => (server_error "ERR wrong number of arguments for 'expire' command", s)
    end
  else if String.eqb commandName "HMSET" then
    match args with
    | k :: f :: v :: rest =>
        match strings s !! k, pairs (f :: v :: rest) with
        | Some _, _ => (server_error "WRONGTYPE Operation against a key holding the wrong kind of value", s)
        | None, Some fvs =>
            ((RString "OK", None),
             {| strings := strings s;
                hashes := <[k := list_to_map fvs ∪ default ∅ (hashes s !! k)]> (hashes s);
                ttls := ttls s; up := up s |})
        | None, None => (server_error "ERR wrong number of arguments for 'hmset' command", s)
        end
    | _ => (server_error "ERR wrong number of arguments for 'hmset' command", s)
    end
  else if String.eqb commandName "HGETALL" then
    match args with
    | [k] =>
        match strings s !! k with
        | Some _ => (server_error "WRONGTYPE Operation against a key holding the wrong kind of value", s)
        | None => ((RValues (unpairs (map_to_list (default ∅ (hashes s !! k)))), None), s)
        end
    | _ => (server_error "ERR wrong number of arguments for 'hgetall' command", s)
    end
  else (server_error ("ERR unknown command '" +:+ commandName +:+ "'"), s).

(** A borrowed connection is live exactly when the pool could dial. *)
Definition ref_pool_Get (s : store) : bool * store := (up s, s).

Definition ref_conn_Do (c : bool) (commandName : string) (args : list rval)
    (s : store) : (reply * option error) * store :=
  if c then serve commandName (map (fun a => default EmptyString (redis.wire a)) args) s
  else ((RNil, Some (Error "dial tcp: connection refused")), s).

Definition ref_conn_Close (c : bool) (s : store) : store := s.

Definition quote : string := String (ascii_of_nat 34) EmptyString.
Definition quoted (s : string) : string := quote +:+ s +:+ quote.

(** Field names and values are taken to need no escaping. *)
Fixpoint json_fields (fs : list (string * string)) : string :=
  match fs with
  | [] => EmptyString
  | [(f, v)] => quoted f +:+ ":" +:+ quoted v
  | (f, v) :: fs' => quoted f +:+ ":" +:+ quoted v +:+ "," +:+ json_fields fs'
  end.

Definition json_cell (c : cell) : string :=
  match c with
  | CInt n => strconv.Itoa n
  | CFields fs => "{" +:+ json_fields fs +:+ "}"
  end.

Definition ref_Marshal (v : rval) (m : gmap nat cell) : string + error :=
  match v with
  | VString s => inl (quoted s)
  | VInt n | VInt64 n => inl (strconv.Itoa n)
  | VOther (OFields fs) => inl (json_cell (CFields fs))
  | VOther OChan => inr (Error "json: unsupported type: chan int")
  | VOther (ORef a) =>
      match m !! a with
      | Some c => inl (json_cell c)
      | None => inl "null"
      end
  end.

(** Only integers are decoded: the text must be the decimal writing of an
    [int] and the destination a pointer to an integer variable. *)
Definition ref_Unmarshal (text : string) (dest : rval) (m : gmap nat cell)
    : option error * gmap nat cell :=
  match dest with
  | VOther (ORef a) =>
      match m !! a with
      | Some (CInt _) =>
          match strconv.ParseInt text with
          | (n, None) =>
              if String.eqb (strconv.Itoa n) text
              then (None, <[a := CInt n]> m)
              else (Some (Error "json: invalid character"), m)
          | _ => (Some (Error "json: invalid character"), m)
          end
      | Some (CFields _) =>
          (Some (Error "json: cannot unmarshal into Go value"), m)
      | None => (Some (Error "json: Unmarshal(nil)"), m)
      end
  | _ => (Some (Error "json: Unmarshal(non-pointer)"), m)
  end.

Definition ref_flatten (v : rval) (m : gmap nat cell) : list rval :=
  let fields fs :=
    flat_map (fun fv : string * string => [VString (fst fv); VString (snd fv)]) fs in
  match v with
  | VOther (OFields fs) => fields fs
  | VOther (ORef a) =>
      match m !! a with
      | Some (CFields fs) => fields fs
      | _ => [v]
      end
  | _ => [v]
  end.

Fixpoint scan_pairs (src : list reply) : option (list (string * string)) :=
  match src with
  | [] => Some []
  | RBytes f :: RBytes v :: src' => option_map (cons (f, v)) (scan_pairs src')
  | _ => None
  end.

Definition ref_ScanStruct (src : list reply) (dest : rval) (m : gmap nat cell)
    : option error * gmap nat cell :=
  match dest with
  | VOther (ORef a) =>
      match m !! a, scan_pairs src with
      | Some (CFields _), Some fvs => (None, <[a := CFields fvs]> m)
      | Some (CFields _), None =>
          (Some (Error "redigo.ScanStruct: number of values not a multiple of 2"), m)
      | _, _ =>
          (Some (Error "redigo.ScanStruct: value must be non-nil pointer to a struct"), m)
      end
  | _ => (Some (Error "redigo.ScanStruct: value must be non-nil pointer to a struct"), m)
  end.

#[export] Instance ref : Collab := {|
  other := ref_other;
  remote := store;
  conn := bool;
  memory := gmap nat cell;
  pool_Get := ref_pool_Get;
  conn_Do := ref_conn_Do;
  conn_Close := ref_conn_Close;
  json_Marshal := ref_Marshal;
  json_Unmarshal := ref_Unmarshal;
  flatten := ref_flatten;
  ScanStruct := ref_ScanStruct
|}.

(** A fresh process talking to an empty store, with one integer variable
    (at address 0) and one record variable (at address 1). *)
Definition w0 : world :=
  {| w_remote := empty_store : @remote ref;
     w_memory := (<[0%nat := CInt 0]> (<[1%nat := CFields []]> ∅) : @memory ref);
     w_trace := [] |}.

(** The same, with the pool unable to dial. *)
Definition w_down : world :=
  {| w_remote := {| strings := ∅; hashes := ∅; ttls := ∅; up := false |} : @remote ref;
     w_memory := w_memory w0;
     w_trace := [] |}.

(** The world after [Set("k", "abc", 60)]. *)
Definition w_abc : world := snd (Set_ "k" (VString "abc") 60 w0).

(** The world after [Hmset("h", {x:1, y:2}, 30)]. *)
Definition w_hash : world :=
  snd (Hmset "h" (VOther (OFields [("x", "1"); ("y", "2")]%string)) 30 w0).

End Reference.


(** ** The remaining pass-through operations *)

Module redisgo_rest.
Import redisgo.
Local Open Scope go_scope.

(** [redis.Int64]: an integer reply as it is; a bulk string parsed in
    base 10 on 64 bits. *)
Definition redis_Int64 (r : reply * option error) : Z * option error :=
  let '(reply, err) := r in
  match err with
  | Some _ => (0, err)
  | None =>
      match reply with
      | RInt64 n => (n, None)
      | RBytes b =>
          let '(n, e) := strconv.ParseInt b in
          (n, option_map NumError e)
      | RNil => (0, Some ErrNil)
      | RError msg => (0, Some (Error msg))
      | _ => (0, Some (redis.unexpected "Int64"))
      end
  end.

Section Operations.
Context {C : Collab}.

(** [func (r *Redis) Exists(key string) (bool, error)] *)
Definition Exists (key : string) : M (bool * option error) :=
  x <- Do "EXISTS" [VString key] ;; ret (redis.Bool x).

(** [func (r *Redis) Del(key string) error] *)
Definition Del (key : string) : M (option error) :=
  '(_, err) <- Do "DEL" [VString key] ;; ret err.

(** [func (r *Redis) Ttl(key string) (ttl int64, err error)] *)
Definition Ttl (key : string) : M (Z * option error) :=
  x <- Do "TTL" [VString key] ;; ret (redis_Int64 x).

(** [func (r *Redis) Incr(key string) (val int64, err error)] *)
Definition Incr (key : string) : M (Z * option error) :=
  x <- Do "INCR" [VString key] ;; ret (redis_Int64 x).

(** [func (r *Redis) IncrBy(key string, amount int) (val int64, err error)] *)
Definition IncrBy (key : string) (amount : Z) : M (Z * option error) :=
  x <- Do "INCRBY" [VString key; VInt amount] ;; ret (redis_Int64 x).

(** [func (r *Redis) Decr(key string) (val int64, err error)] *)
Definition Decr (key : string) : M (Z * option error) :=
  x <- Do "DECR" [VString key] ;; ret (redis_Int64 x).

(** [func (r *Redis) DecrBy(key string, amount int) (val int64, err error)] *)
Definition DecrBy (key : string) (amount : Z) : M (Z * option error) :=
  x <- Do "DECRBY" [VString key; VInt amount] ;; ret (redis_Int64 x).


(** [func (r *Redis) Zrank(key, member string) (int64, error)] *)
Definition Zrank (key member : string) : M (Z * option error) :=
  x <- Do "ZRANK" [VString key; VString member] ;; ret (redis_Int64 x).

(** [func (r *Redis) Zrevrank(key, member string) (int64, error)] *)
Definition Zrevrank (key member : string) : M (Z * option error) :=
  x <- Do "ZREVRANK" [VString key; VString member] ;; ret (redis_Int64 x).

(** The last argument [Set] gives to [SETEX]: the string or the int as
    it is, and for any other value the text [json.Marshal] produced,
    empty when it failed. *)
Definition sent_arg (v : value other) (mem : memory) : value other :=
  match v with
  | VString s => VString s
  | VInt n => VInt n
  | _ => VString match json_Marshal v mem with
                 | inl b => b
                 | inr _ => EmptyString
                 end
  end.


(** The text that [Set] hands to [SETEX] for a value: the string itself,
    the int in decimal as the connection writes it, and for any other
    value what [json.Marshal] produced, empty when it failed. *)
Definition sent_text (v : value other) (mem : memory) : string :=
  match v with
  | VString s => s
  | VInt n => strconv.Itoa n
  | _ => match json_Marshal v mem with
         | inl b => b
         | inr _ => EmptyString
         end
  end.

End Operations.

End redisgo_rest.

(** ** The [Dial] and [TestOnBorrow] closures that [New] gives the pool *)

Module Dialing.
Import Lifecycle.

(** What a dial does that the network can tell. *)
Inductive net_event (sock : Type) :=
| NetDial (network address : string)
| NetDo (c : sock) (commandName : string) (args : list (value Empty_set))
| NetClose (c : sock).
Arguments NetDial {sock} network address.
Arguments NetDo {sock} c commandName args.
Arguments NetClose {sock} c.

(** The transport and the server at the other end.  [redis_Dial] yields a
    connection or an error, never both. *)
Class Net := {
  net : Type;
  sock : Type;
  redis_Dial : string -> string -> net -> (sock + error) * net;
  sock_Do : sock -> string -> list (value Empty_set) -> net ->
            (reply * option error) * net;
  sock_Close : sock -> net -> net
}.

Section Closures.
Context {N : Net}.

Definition dial_state : Type := net * list (net_event sock).

Definition do_on (c : sock) (commandName : string)
    (args : list (value Empty_set)) (st : dial_state)
    : (reply * option error) * dial_state :=
  let '(res, n') := sock_Do c commandName args (fst st) in
  (res, (n', snd st ++ [NetDo c commandName args])).

Definition close (c : sock) (st : dial_state) : dial_state :=
  (sock_Close c (fst st), snd st ++ [NetClose c]).

(** The address the closure dials: [ip + ":" + strconv.Itoa(port)]. *)
Definition address (p : Pool) : string :=
  dial_ip p +:+ ":" +:+ strconv.Itoa (dial_port p).

(** The [Dial] field of the pool: open the transport, authenticate,
    select the database; a failure of either command closes the
    connection and returns nil with the error. *)
Definition Dial (p : Pool) (st : dial_state)
    : (option sock * option error) * dial_state :=
  let '(opened, n1) := redis_Dial "tcp" (address p) (fst st) in
  let st1 := (n1, snd st ++ [NetDial "tcp" (address p)]) in
  match opened with
  | inr err => ((None, Some err), st1)
  | inl c =>
      let '((_, err), st2) := do_on c "AUTH" [VString (dial_password p)] st1 in
      match err with
      | Some e => ((None, Some e), close c st2)
      | None =>
          let '((_, err), st3) := do_on c "SELECT" [VInt (dial_db p)] st2 in
          match err with
          | Some e => ((None, Some e), close c st3)
          | None => ((Some c, None), st3)
          end
      end
  end.

(** The [TestOnBorrow] field of the pool; the time argument is unused. *)
Definition TestOnBorrow (c : sock) (st : dial_state)
    : option error * dial_state :=
  let '((_, err), st1) := do_on c "PING" [] st in
  (err, st1).

End Closures.

(** A reference network: a server that may be listening, that asks for
    a password and offers a number of databases; connections are
    numbered. *)
Record ref_net := mkNet {
  listening : bool;
  requirepass : string;
  databases : Z;
  next_conn : nat
}.

Definition ref_Dial (network address : string) (n : ref_net)
    : (nat + error) * ref_net :=
  if listening n
  then (inl (next_conn n),
        {| listening := listening n; requirepass := requirepass n;
           databases := databases n; next_conn := S (next_conn n) |})
  else (inr (Error "dial tcp: connection refused"), n).

Definition ref_sock_Do (c : nat) (commandName : string)
    (args : list (value Empty_set)) (n : ref_net)
    : (reply * option error) * ref_net :=
  if String.eqb commandName "AUTH" then
    match args with
    | [VString p] =>
        if String.eqb p (requirepass n) then ((RString "OK", None), n)
        else ((RError "ERR invalid password",
               Some (Error "ERR invalid password")), n)
    | _ => ((RError "ERR wrong number of arguments",
             Some (Error "ERR wrong number of arguments")), n)
    end
  else if String.eqb commandName "SELECT" then
    match args with
    | [VInt d] =>
        if (0 <=? d) && (d <? databases n) then ((RString "OK", None), n)
        else ((RError "ERR DB index is out of range",
               Some (Error "ERR DB index is out of range")), n)
    | _ => ((RError "ERR wrong number of arguments",
             Some (Error "ERR wrong number of arguments")), n)
    end
  else if String.eqb commandName "PING" then ((RString "PONG", None), n)
  else ((RError "ERR unknown command", Some (Error "ERR unknown command")), n).

#[export] Instance refnet : Net := {|
  net := ref_net;
  sock := nat;
  redis_Dial := ref_Dial;
  sock_Do := ref_sock_Do;
  sock_Close := fun _ n => n
|}.

Definition server : ref_net :=
  {| listening := true; requirepass := "secret"; databases := 16;
     next_conn := 0 |}.

Definition good_pool : Pool := mkPool 3 240 "localhost" 6379 "secret" 0.

End Dialing.

(** ** Consistency of the package state *)

Module LifecycleInv.
Import Lifecycle.

(** The package state is consistent when the instance pointer is nil
    exactly while [once] has not run, and otherwise points to an
    allocated handle for which a signal watcher was started. *)
Definition consistent (g : globals) : Prop :=
  match redisInstance g with
  | None => once g = false
  | Some r => once g = true /\ is_Some (heap g !! r) /\ In r (watchers g)
  end.

End LifecycleInv.

(** ** A scripted collaborator

    A connection that gives the same answer to every command, with
    nothing behind it: enough to run an operation on a chosen reply. *)

Module Scripted.
Import redisgo.

Definition scripted (answer : reply * option error) : Collab := {|
  other := Empty_set;
  remote := unit;
  conn := unit;
  memory := unit;
  pool_Get := fun r => (tt, r);
  conn_Do := fun _ _ _ r => (answer, r);
  conn_Close := fun _ r => r;
  json_Marshal := fun _ _ => inl EmptyString;
  json_Unmarshal := fun _ _ m => (None, m);
  flatten := fun v _ => [v];
  ScanStruct := fun _ _ m => (None, m)
|}.

Definition blank (answer : reply * option error) : @world (scripted answer) :=
  {| w_remote := tt : @remote (scripted answer);
     w_memory := tt : @memory (scripted answer);
     w_trace := [] |}.

End Scripted.

(** * Properties *)

(** ** Lifecycle: one handle per process *)

Section LifecycleFacts.
Import Lifecycle.

Lemma New_after_once ip port password db g :
  once g = true -> New ip port password db g = (redisInstance g, g).
Proof.
  intros Hdone. unfold New, once_Do. now rewrite Hdone.
Qed.

Lemma New_sets_once ip port password db g :
  once (snd (New ip port password db g)) = true.
Proof.
  unfold New, once_Do. destruct (once g) eqn:E; simpl; auto.
Qed.

Lemma New_seq_after_once cs : forall g,
  once g = true ->
  New_seq cs g = (repeat (redisInstance g) (length cs), g).
Proof.
  induction cs as [|c cs IH]; intros g Hdone; cbn [New_seq length repeat].
  - reflexivity.
  - unfold New_call at 1. rewrite New_after_once by assumption.
    rewrite IH by assumption. reflexivity.
Qed.

Lemma New_first c :
  New_call c start =
    (Some 0%nat,
     {| heap := [ {| pool := mkPool 3 240 (c_ip c) (c_port c)
                                     (c_password c) (c_db c) |} ];
        redisInstance := Some 0%nat; once := true; watchers := [0%nat] |}).
Proof. reflexivity. Qed.

(** C1. In every sequence of calls to [New] made by a fresh process, the
    first call alone allocates a handle (from its own arguments) and starts
    the watcher; every later call, whatever its arguments, leaves the whole
    package state as the first call left it and returns the same pointer.
    Hence no sequence of calls ever yields more than one handle. *)
Theorem New_builds_once :
  (forall c cs,
      let '(r1, g1) := New_call c start in
      r1 = Some 0%nat /\
      handles g1 = 1%nat /\
      New_seq (c :: cs) start = (repeat r1 (S (length cs)), g1)) /\
  (forall cs, (handles (snd (New_seq cs start)) <= 1)%nat) /\
  (forall c cs c',
      New_call c' (snd (New_seq (c :: cs) start)) = New_call c start).
Proof.
  split; [| split].
  - intros c cs. rewrite New_first. split; [reflexivity|].
    split; [reflexivity|].
    cbn [New_seq]. rewrite New_first. rewrite New_seq_after_once by reflexivity.
    reflexivity.
  - intros [|c cs]; cbn [New_seq].
    + unfold handles; simpl; lia.
    + rewrite New_first. rewrite New_seq_after_once by reflexivity.
      unfold handles; simpl; lia.
  - intros c cs c'. cbn [New_seq]. rewrite New_first.
    rewrite New_seq_after_once by reflexivity. reflexivity.
Qed.

(** C2. [GetInstance] in a process that has not called [New] panics (it
    does not return an error value); after any non-empty sequence of calls
    to [New] it returns the pointer that the first [New] returned, and it
    reads the package state without changing it, so every call agrees. *)
Theorem GetInstance_after_New :
  (exists msg, GetInstance start = Panics msg) /\
  (forall c cs,
      exists r, fst (New_call c start) = Some r /\
        Forall (fun x => x = Some r) (fst (New_seq (c :: cs) start)) /\
        GetInstance (snd (New_call c start)) = Returns r /\
        GetInstance (snd (New_seq (c :: cs) start)) = Returns r).
Proof.
  split.
  - eexists. reflexivity.
  - intros c cs. exists 0%nat. cbn [New_seq]. rewrite New_first.
    rewrite New_seq_after_once by reflexivity. cbn [fst snd repeat].
    repeat split; try reflexivity.
    constructor; [reflexivity|].
    induction (length cs) as [|n IH]; cbn [repeat]; constructor; auto.
Qed.

End LifecycleFacts.

(** ** Decimal text of integers *)

Section StrconvFacts.
Import strconv.

Lemma digit_val_char d : 0 <= d < 10 -> digit_val (digit_char d) = Some d.
Proof.
  intros Hd.
  assert (Hcases : d = 0 \/ d = 1 \/ d = 2 \/ d = 3 \/ d = 4 \/
                   d = 5 \/ d = 6 \/ d = 7 \/ d = 8 \/ d = 9) by lia.
  repeat (destruct Hcases as [-> | Hcases]; [reflexivity|]).
  subst d. reflexivity.
Qed.

Lemma digit_char_not_sign d :
  0 <= d < 10 ->
  Ascii.eqb (digit_char d) "+" = false /\ Ascii.eqb (digit_char d) "-" = false.
Proof.
  intros Hd.
  assert (Hcases : d = 0 \/ d = 1 \/ d = 2 \/ d = 3 \/ d = 4 \/
                   d = 5 \/ d = 6 \/ d = 7 \/ d = 8 \/ d = 9) by lia.
  repeat (destruct Hcases as [-> | Hcases]; [split; reflexivity|]).
  subst d. split; reflexivity.
Qed.

(** What [formatBits] writes starts with a digit. *)
Lemma formatBits_head fuel : forall u a,
  0 <= u ->
  exists d s, 0 <= d < 10 /\ formatBits (S fuel) u a = String (digit_char d) s.
Proof.
  induction fuel as [|fuel IH]; intros u a Hu.
  - cbn [formatBits]. exists (u mod 10), a.
    split; [apply Z.mod_pos_bound; lia|]. now destruct (u <? 10).
  - change (formatBits (S (S fuel)) u a) with
      (let a' := String (digit_char (u mod 10)) a in
       if u <? 10 then a' else formatBits (S fuel) (u / 10) a').
    cbv zeta. destruct (u <? 10) eqn:E.
    + exists (u mod 10), a. split; [apply Z.mod_pos_bound; lia|reflexivity].
    + apply IH. apply Z.div_pos; lia.
Qed.

(** Reading back what [formatBits] wrote: the digits of [u], put in front
    of [a], add [u] to the accumulator shifted by their number. *)
Lemma ParseUint_loop_formatBits fuel : forall u,
  0 <= u < 10 ^ Z.of_nat fuel ->
  exists k, 0 <= k /\
    forall a n, 0 <= n -> n * 10 ^ k + u <= maxUint64 ->
      ParseUint_loop (formatBits fuel u a) n = ParseUint_loop a (n * 10 ^ k + u).
Proof.
  induction fuel as [|fuel IH]; intros u Hu.
  - simpl in Hu. assert (u = 0) by lia. subst u.
    exists 0. split; [lia|]. intros a n Hn Hle. cbn [formatBits].
    f_equal. lia.
  - cbn [formatBits]. destruct (u <? 10) eqn:E.
    + apply Z.ltb_lt in E. exists 1. split; [lia|]. intros a n Hn Hle.
      rewrite Z.mod_small by lia. cbn [ParseUint_loop].
      rewrite digit_val_char by lia.
      replace (n * 10 ^ 1 + u) with (n * 10 + u) in * by lia.
      destruct (maxUint64 <? n * 10 + u) eqn:F; [apply Z.ltb_lt in F; lia|].
      reflexivity.
    + apply Z.ltb_ge in E.
      assert (Hdiv : 0 <= u / 10 < 10 ^ Z.of_nat fuel).
      { split; [apply Z.div_pos; lia|].
        apply Z.div_lt_upper_bound; [lia|].
        replace (Z.of_nat (S fuel)) with (Z.succ (Z.of_nat fuel)) in Hu by lia.
        rewrite Z.pow_succ_r in Hu by lia. lia. }
      destruct (IH (u / 10) Hdiv) as (k & Hk & Hparse).
      exists (k + 1). split; [lia|]. intros a n Hn Hle.
      assert (Hmod : 0 <= u mod 10 < 10) by (apply Z.mod_pos_bound; lia).
      assert (Hu10 : u = 10 * (u / 10) + u mod 10) by (apply Z.div_mod; lia).
      assert (Hpow : 10 ^ (k + 1) = 10 ^ k * 10)
        by (rewrite Z.pow_add_r by lia; reflexivity).
      assert (Hpos : 0 < 10 ^ k) by (apply Z.pow_pos_nonneg; lia).
      assert (Hsplit : n * 10 ^ (k + 1) + u
                       = (n * 10 ^ k + u / 10) * 10 + u mod 10) by nia.
      rewrite Hparse; [| lia | nia].
      cbn [ParseUint_loop]. rewrite digit_val_char by lia.
      rewrite <- Hsplit.
      destruct (maxUint64 <? n * 10 ^ (k + 1) + u) eqn:F;
        [apply Z.ltb_lt in F; lia|].
      reflexivity.
Qed.

Lemma ParseUint_formatBits u :
  0 <= u <= maxUint64 ->
  ParseUint (formatBits 20 u EmptyString) = (u, None).
Proof.
  intros Hu.
  destruct (formatBits_head 19 u EmptyString ltac:(lia)) as (d & s & Hd & Hs).
  unfold ParseUint. rewrite Hs. rewrite <- Hs.
  destruct (ParseUint_loop_formatBits 20 u) as (k & Hk & Hparse).
  { unfold maxUint64 in Hu. simpl. lia. }
  rewrite Hparse by lia. cbn [ParseUint_loop]. f_equal; lia.
Qed.

(** Every [int] is read back from its decimal text. *)
Lemma ParseInt_Itoa i : is_int i -> ParseInt (Itoa i) = (i, None).
Proof.
  unfold is_int, minInt, maxInt. intros Hi. unfold Itoa.
  destruct (i <? 0) eqn:E.
  - apply Z.ltb_lt in E. unfold ParseInt.
    change (Ascii.eqb "-" "+") with false.
    change (Ascii.eqb "-" "-") with true. cbv iota.
    rewrite ParseUint_formatBits by (unfold maxUint64; lia).
    cbv iota beta. unfold intSize. cbn [negb andb].
    destruct (2 ^ (64 - 1) <? - i) eqn:F; [apply Z.ltb_lt in F; lia|].
    f_equal. lia.
  - apply Z.ltb_ge in E.
    destruct (formatBits_head 19 i EmptyString ltac:(lia)) as (d & s & Hd & Hs).
    destruct (digit_char_not_sign d Hd) as [Hplus Hminus].
    unfold ParseInt. rewrite Hs. rewrite Hplus, Hminus. rewrite <- Hs.
    rewrite ParseUint_formatBits by (unfold maxUint64; lia).
    cbv iota beta. unfold intSize. cbn [negb andb].
    destruct (2 ^ (64 - 1) <=? i) eqn:F; [apply Z.leb_le in F; lia|].
    reflexivity.
Qed.

Example Itoa_42 : Itoa 42 = "42"%string.
Proof. reflexivity. Qed.

Example Itoa_neg : Itoa (-1200) = "-1200"%string.
Proof. reflexivity. Qed.

Example ParseInt_plus : ParseInt "+17" = (17, None).
Proof. reflexivity. Qed.

Example ParseInt_bad : ParseInt "4x" = (0, Some ErrSyntax).
Proof. reflexivity. Qed.

Example ParseInt_range :
  ParseInt "9223372036854775808" = (maxInt, Some ErrRange).
Proof. reflexivity. Qed.

End StrconvFacts.

(** ** The operations, for an arbitrary collaborator *)

Section WrapperFacts.
Import redisgo.
Context {C : Collab}.

Local Abbreviation val := (value other).

(** One call to [Do]: the reply is the connection's, the pool moves on,
    the caller's memory is not involved, one command is added to the
    trace. *)
Lemma Do_unfold commandName (args : list val) w :
  Do commandName args w =
    (fst (Do_remote commandName args (w_remote w)),
     {| w_remote := snd (Do_remote commandName args (w_remote w));
        w_memory := w_memory w;
        w_trace := w_trace w ++ [EvDo commandName args] |}).
Proof.
  unfold Do. now destruct (Do_remote commandName args (w_remote w)).
Qed.

Lemma Do_memory commandName (args : list val) w :
  w_memory (snd (Do commandName args w)) = w_memory w.
Proof. now rewrite Do_unfold. Qed.

Lemma Do_trace commandName (args : list val) w :
  w_trace (snd (Do commandName args w)) = w_trace w ++ [EvDo commandName args].
Proof. now rewrite Do_unfold. Qed.

Lemma GetString_unfold key w :
  GetString key w =
    (redis.String (fst (Do "GET" [VString key] w)), snd (Do "GET" [VString key] w)).
Proof.
  unfold GetString, bind, ret. now destruct (Do "GET" [VString key] w).
Qed.

Lemma GetInt_unfold key w :
  GetInt key w =
    (redis.Int (fst (Do "GET" [VString key] w)), snd (Do "GET" [VString key] w)).
Proof.
  unfold GetInt, bind, ret. now destruct (Do "GET" [VString key] w).
Qed.

(** A key the store does not hold is a failed fetch: [redis.ErrNil]. *)
Lemma GetString_not_found key w r1 :
  Do_remote "GET" [VString key] (w_remote w) = ((RNil, None), r1) ->
  fst (GetString key w) = (EmptyString, Some ErrNil).
Proof.
  intros Hget. rewrite GetString_unfold, Do_unfold, Hget. reflexivity.
Qed.

(** C3. When the fetch succeeds and the decoder then fails with [e], [Get]
    and [Hmget] both return nil.  [Get] drops [e]; [Hmget] prints it.  In
    both the decoder has run on the caller's memory, which is left as the
    decoder left it. *)
Theorem decode_failure_not_surfaced (key : string) (dest : val) (w : world) :
  (forall text e m',
      fst (GetString key w) = (text, None) ->
      json_Unmarshal text dest (w_memory w) = (Some e, m') ->
      Get key dest w =
        (None, {| w_remote := w_remote (snd (GetString key w));
                  w_memory := m';
                  w_trace := w_trace w ++ [EvDo "GET" [VString key];
                                           EvUnmarshal text dest] |})) /\
  (forall vs e m',
      redis.Values (fst (Do "HGETALL" [VString key] w)) = (vs, None) ->
      ScanStruct vs dest (w_memory w) = (Some e, m') ->
      Hmget key dest w =
        (None, {| w_remote := w_remote (snd (Do "HGETALL" [VString key] w));
                  w_memory := m';
                  w_trace := w_trace w ++ [EvDo "HGETALL" [VString key];
                                           EvScanStruct vs dest;
                                           EvPrintln e] |})).
Proof.
  split.
  - intros text e m' Hfetch Hdec.
    unfold Get, bind. rewrite GetString_unfold in *. cbn [fst snd] in *.
    rewrite Hfetch. unfold Unmarshal, ret.
    rewrite Do_memory, Do_trace, Hdec, <- app_assoc. reflexivity.
  - intros vs e m' Hvals Hscan.
    unfold Hmget, bind.
    pose proof (Do_memory "HGETALL" [VString key] w) as Hmem.
    pose proof (Do_trace "HGETALL" [VString key] w) as Htr.
    destruct (Do "HGETALL" [VString key] w) as [x w1].
    cbn [fst snd] in *. unfold ret at 1. rewrite Hvals.
    unfold Scan. rewrite Hmem, Hscan. unfold Println, emit, ret.
    cbn [w_remote w_memory w_trace]. rewrite Htr, <- !app_assoc. reflexivity.
Qed.

(** C10. When the fetch of [Get] fails with [e], [Get] returns [e]; the
    world is the one the fetch left: the caller's memory is what it was
    and the trace holds the [GET] command and no decoder run. *)
Theorem Get_failed_fetch_frame (key : string) (dest : val) (w : world)
    (e : error) :
  snd (fst (GetString key w)) = Some e ->
  Get key dest w = (Some e, snd (GetString key w)) /\
  w_memory (snd (Get key dest w)) = w_memory w /\
  w_trace (snd (Get key dest w)) = w_trace w ++ [EvDo "GET" [VString key]].
Proof.
  intros Hfail.
  assert (HGet : Get key dest w = (Some e, snd (GetString key w))).
  { unfold Get, bind. destruct (GetString key w) as [[text err] w1].
    cbn in Hfail. subst err. reflexivity. }
  rewrite HGet. cbn [snd]. rewrite GetString_unfold. cbn [snd].
  rewrite Do_memory, Do_trace. auto.
Qed.

(** C4. Whatever the key, the value and the expiry, the whole effect of
    [Set] on the world is that of one [SETEX] command carrying the expiry:
    its last argument is the string or the int itself, and for any other
    value the text [json.Marshal] produced (empty when it failed). *)
Theorem Set_one_SETEX (key : string) (v : val) (expire : Z) (w : world) :
  let payload : val :=
    match v with
    | VString s => VString s
    | VInt n => VInt n
    | _ => VString match json_Marshal v (w_memory w) with
                   | inl b => b
                   | inr _ => EmptyString
                   end
    end in
  snd (Set_ key v expire w)
    = snd (Do "SETEX" [VString key; VInt expire; payload] w) /\
  w_trace (snd (Set_ key v expire w))
    = w_trace w ++ [EvDo "SETEX" [VString key; VInt expire; payload]].
Proof.
  cbv zeta.
  destruct v as [s|n|n|o]; cbn [Set_]; unfold bind, read_memory, ret;
    try match goal with |- context [json_Marshal ?x ?m] =>
      destruct (json_Marshal x m) as [b|e] end;
    match goal with |- context [Do ?n ?a w] =>
      pose proof (Do_trace n a w) as Htr;
      destruct (Do n a w) as [[? ?] ?]
    end;
    split; solve [reflexivity | exact Htr].
Qed.

(** Outside the string and int clauses [Set] returns nil and nil, whatever
    the encoder and the command answered. *)
Lemma Set_default_returns_nil key (v : val) expire w :
  match v with VString _ | VInt _ => False | _ => True end ->
  fst (Set_ key v expire w) = (RNil, None).
Proof.
  intros Hv. destruct v as [s|n|n|o]; try contradiction; cbn [Set_];
    unfold bind, read_memory, ret;
    match goal with |- context [json_Marshal ?x ?m] =>
      destruct (json_Marshal x m) as [b|e] end;
    match goal with |- context [Do ?n ?a w] =>
      now destruct (Do n a w) as [[? ?] ?] end.
Qed.

(** In the string and int clauses [Set] returns the error of the command. *)
Lemma Set_plain_returns_command_error key (v : val) expire w :
  match v with VString _ | VInt _ => True | _ => False end ->
  fst (Set_ key v expire w)
    = (RNil, snd (fst (Do "SETEX" [VString key; VInt expire; v] w))).
Proof.
  intros Hv. destruct v as [s|n|n|o]; try contradiction; cbn [Set_];
    unfold bind, ret;
    match goal with |- context [Do ?n ?a w] =>
      now destruct (Do n a w) as [[? ?] ?] end.
Qed.

(** C5. [Hmset] sends one [HMSET] whose arguments are the key followed by
    the flattened value.  When that command fails, [Hmset] returns its
    error and sends nothing else.  When it succeeds, [Hmset] sends
    [EXPIRE] with the expiry if the expiry is positive, and returns that
    command's error; otherwise it sends nothing else and returns nil. *)
Theorem Hmset_commands (key : string) (v : val) (expire : Z) (w : world) :
  let hmset := EvDo "HMSET" (VString key :: flatten v (w_memory w)) in
  let expiry := EvDo "EXPIRE" [VString key; VInt64 expire] in
  let '((_, err), w1) := Do "HMSET" (VString key :: flatten v (w_memory w)) w in
  match err with
  | Some e =>
      Hmset key v expire w = (Some e, w1) /\
      w_trace w1 = w_trace w ++ [hmset]
  | None =>
      if 0 <? expire then
        Hmset key v expire w =
          (snd (fst (Do "EXPIRE" [VString key; VInt64 expire] w1)),
           snd (Do "EXPIRE" [VString key; VInt64 expire] w1)) /\
        w_trace (snd (Hmset key v expire w)) = w_trace w ++ [hmset; expiry]
      else
        Hmset key v expire w = (None, w1) /\
        w_trace w1 = w_trace w ++ [hmset]
  end.
Proof.
  cbv zeta. unfold Hmset, bind, read_memory, Hmset_args, redis.Args_Add.
  cbn [app].
  pose proof (Do_trace "HMSET" (VString key :: flatten v (w_memory w)) w) as Htr.
  destruct (Do "HMSET" (VString key :: flatten v (w_memory w)) w)
    as [[rep err] w1].
  cbn [snd] in Htr. destruct err as [e|].
  - split; [reflexivity|exact Htr].
  - destruct (0 <? expire).
    + pose proof (Do_trace "EXPIRE" [VString key; VInt64 expire] w1) as Htr2.
      destruct (Do "EXPIRE" [VString key; VInt64 expire] w1) as [[rep2 err2] w2].
      cbn [fst snd ret] in *. split; [reflexivity|].
      rewrite Htr2, Htr, <- app_assoc. reflexivity.
    + split; [reflexivity|exact Htr].
Qed.

(** C6, as amended. [Expire] sends one [EXPIRE] command and returns the
    error component of [redis.Bool] applied to the reply, and nothing
    else: the boolean is dropped. *)
Theorem Expire_returns_error_only (key : string) (expire : Z) (w : world) :
  Expire key expire w =
    (snd (redis.Bool (fst (Do "EXPIRE" [VString key; VInt expire] w))),
     snd (Do "EXPIRE" [VString key; VInt expire] w)) /\
  w_trace (snd (Expire key expire w))
    = w_trace w ++ [EvDo "EXPIRE" [VString key; VInt expire]].
Proof.
  assert (H : Expire key expire w =
    (snd (redis.Bool (fst (Do "EXPIRE" [VString key; VInt expire] w))),
     snd (Do "EXPIRE" [VString key; VInt expire] w))).
  { unfold Expire, bind.
    destruct (Do "EXPIRE" [VString key; VInt expire] w) as [x w1].
    cbn [fst snd]. now destruct (redis.Bool x). }
  split; [exact H|]. rewrite H. cbn [snd]. apply Do_trace.
Qed.

(** C8. Each of the four range operations is a single command that
    carries [WITHSCORES] and returns the reply as the connection gave it:
    nothing is reordered or otherwise computed on it. *)
Theorem ranges_pass_through (key : string) (from to offset count : Z) :
  passes_through (Zrange key from to) "ZRANGE" "WITHSCORES" /\
  passes_through (Zrevrange key from to) "ZREVRANGE" "WITHSCORES" /\
  passes_through (ZrangeByScore key from to offset count)
                 "ZRANGEBYSCORE" "WITHSCORES" /\
  passes_through (ZrevrangeByScore key from to offset count)
                 "ZREVRANGEBYSCORE" "WITHSCORES".
Proof.
  unfold passes_through, Zrange, Zrevrange, ZrangeByScore, ZrevrangeByScore.
  split; [|split; [|split]]; intros w; rewrite Do_unfold; cbn [fst snd];
    (eexists; split;
     [| split; [reflexivity| split; [reflexivity| split; reflexivity]]]);
    cbn [In]; repeat (first [left; reflexivity | right]).
Qed.

End WrapperFacts.

(** ** Writing then reading a scalar *)

Section RoundTrip.
Import redisgo.
Context {C : Collab}.

(** C7. Over a store that keeps what it acknowledged, a [Set] of a string
    that reported no error is followed by a [GetString] of the same key
    returning that string, and a [Set] of an int that reported no error is
    followed by a [GetInt] returning that int: the int travels as its
    decimal text and is parsed back. *)
Theorem Set_then_get_round_trip (key : string) (expire : Z) (w : world) :
  keeps_text ->
  (forall s : string,
      snd (fst (Set_ key (VString s) expire w)) = None ->
      fst (GetString key (snd (Set_ key (VString s) expire w))) = (s, None)) /\
  (forall n : Z,
      strconv.is_int n ->
      snd (fst (Set_ key (VInt n) expire w)) = None ->
      fst (GetInt key (snd (Set_ key (VInt n) expire w))) = (n, None)).
Proof.
  intros Hstore.
  assert (Hread : forall (v : value other) text,
    redis.wire v = Some text ->
    match v with VString _ | VInt _ => True | _ => False end ->
    snd (fst (Set_ key v expire w)) = None ->
    fst (Do "GET" [VString key] (snd (Set_ key v expire w)))
      = (RBytes text, None)).
  { intros v text Hwire Hplain Hok.
    rewrite Set_plain_returns_command_error in Hok by assumption.
    cbn [snd] in Hok.
    assert (Hworld : snd (Set_ key v expire w)
                     = snd (Do "SETEX" [VString key; VInt expire; v] w)).
    { destruct v; try contradiction; cbn [Set_]; unfold bind, ret;
        match goal with |- context [Do ?n ?a w] =>
          now destruct (Do n a w) as [[? ?] ?] end. }
    rewrite Hworld. rewrite Do_unfold in Hok. cbn [fst] in Hok.
    rewrite (Do_unfold "GET"). cbn [fst]. rewrite (Do_unfold "SETEX").
    cbn [snd w_remote].
    destruct (Do_remote "SETEX" [VString key; VInt expire; v] (w_remote w))
      as [[rep err] r1] eqn:Hsetex.
    cbn [fst snd] in *. subst err.
    exact (Hstore key expire v text rep (w_remote w) r1 Hwire Hsetex). }
  split.
  - intros s Hok. rewrite GetString_unfold.
    rewrite (Hread (VString s) s eq_refl I Hok). reflexivity.
  - intros n Hn Hok. rewrite GetInt_unfold.
    rewrite (Hread (VInt n) (strconv.Itoa n) eq_refl I Hok).
    unfold redis.Int. rewrite (ParseInt_Itoa n Hn). reflexivity.
Qed.

End RoundTrip.

(** ** Runs against the reference collaborator *)

Section ReferenceRuns.
Import redisgo Reference.

Lemma serve_SETEX_acknowledged k secs v s rep s1 :
  serve "SETEX" [k; secs; v] s = ((rep, None), s1) ->
  strings s1 !! k = Some v /\ hashes s1 !! k = None /\ up s1 = up s.
Proof.
  unfold serve. change (String.eqb "SETEX" "SETEX") with true. cbv iota.
  destruct (strconv.ParseInt secs) as [n [e|]]; [discriminate|].
  destruct (n <=? 0); [discriminate|].
  intros [= <- <-]. cbn. rewrite lookup_insert_eq, lookup_delete_eq. auto.
Qed.

Lemma serve_GET_string k v s :
  hashes s !! k = None -> strings s !! k = Some v ->
  serve "GET" [k] s = ((RBytes v, None), s).
Proof.
  intros Hh Hs. unfold serve.
  change (String.eqb "GET" "SETEX") with false.
  change (String.eqb "GET" "GET") with true. cbv iota.
  now rewrite Hh, Hs.
Qed.

(** The reference store keeps what it acknowledged. *)
Lemma ref_keeps_text : @keeps_text ref.
Proof.
  intros key expire v text rep r r1 Hwire.
  unfold Do_remote. cbn [pool_Get conn_Do conn_Close ref].
  unfold ref_pool_Get, ref_conn_Do, ref_conn_Close.
  destruct (up r) eqn:Hup; [|discriminate].
  change (@redis.wire ref_other v = Some text) in Hwire.
  cbn [map]. rewrite Hwire. cbn [redis.wire default from_option id].
  destruct (serve "SETEX" _ r) as [[rep' err'] r1'] eqn:Hsetex.
  intros [= -> -> ->].
  apply serve_SETEX_acknowledged in Hsetex as (Hs & Hh & Hup1).
  rewrite Hup1, Hup. rewrite (serve_GET_string key text r1 Hh Hs).
  reflexivity.
Qed.

Lemma decode_failure_not_surfaced_witness :
  fst (Get "k" (VOther (ORef 0)) w_abc) = None /\
  fst (Hmget "h" (VString "nope") w_hash) = None.
Proof.
  destruct (decode_failure_not_surfaced (C := ref)
              "k" (VOther (ORef 0)) w_abc) as [HGet _].
  destruct (decode_failure_not_surfaced (C := ref)
              "h" (VString "nope") w_hash) as [_ HHmget].
  split.
  - rewrite (HGet "abc"%string (Error "json: invalid character")
                  (w_memory w_abc));
      [reflexivity | vm_compute; reflexivity | vm_compute; reflexivity].
  - rewrite (HHmget [RBytes "y"; RBytes "2"; RBytes "x"; RBytes "1"]%string
                    (Error "redigo.ScanStruct: value must be non-nil pointer to a struct")
                    (w_memory w_hash));
      [reflexivity | vm_compute; reflexivity | vm_compute; reflexivity].
Defined.

Lemma Get_failed_fetch_frame_witness :
  Get "k" (VOther (ORef 0)) w0 = (Some ErrNil, snd (GetString "k" w0)) /\
  w_memory (snd (Get "k" (VOther (ORef 0)) w0)) = w_memory w0 /\
  w_trace (snd (Get "k" (VOther (ORef 0)) w0))
    = w_trace w0 ++ [EvDo "GET" [VString "k"]].
Proof.
  apply (Get_failed_fetch_frame (C := ref) "k" (VOther (ORef 0)) w0 ErrNil).
  vm_compute; reflexivity.
Defined.

Lemma Set_then_get_round_trip_witness :
  fst (GetString "k" (snd (Set_ "k" (VString "abc") 60 w0))) = ("abc"%string, None) /\
  fst (GetInt "k" (snd (Set_ "k" (VInt 42) 60 w0))) = (42, None).
Proof.
  destruct (Set_then_get_round_trip (C := ref) "k" 60 w0 ref_keeps_text)
    as [Hstring Hint].
  split.
  - apply Hstring. vm_compute; reflexivity.
  - apply Hint.
    + unfold strconv.is_int, strconv.minInt, strconv.maxInt. lia.
    + vm_compute; reflexivity.
Defined.

(** C6, read as "the caller learns from [Expire] whether the expiry was
    applied", does not hold: on the reference store [EXPIRE] answers 1 for
    a key that exists and 0 for one that does not, and [Expire] returns
    nil in both runs, so no function of what [Expire] returns tells
    whether the expiry was applied. *)
Lemma Expire_does_not_return_applied :
  ~ exists applied_of : option error -> bool,
      forall w : @world ref,
        applied_of (fst (Expire "k" 10 w))
          = fst (redis.Bool (fst (Do "EXPIRE" [VString "k"; VInt 10] w))).
Proof.
  intros [applied_of Hall].
  pose proof (Hall w0) as Habsent.
  pose proof (Hall w_abc) as Hpresent.
  vm_compute in Habsent. vm_compute in Hpresent. congruence.
Qed.

(** C9 at a failing input. The value is a channel, which
    [json.Marshal] rejects, and the expiry is 0, which the store rejects:
    the [SETEX] command comes back with an error, and [Set] returns nil.
    With a string in place of the channel, the same command error is
    returned. *)
Theorem Set_default_clause_loses_command_error :
  json_Marshal (VOther OChan) (w_memory w0)
    = inr (Error "json: unsupported type: chan int") /\
  fst (Do "SETEX" [VString "k"; VInt 0; VString ""] w0)
    = server_error "ERR invalid expire time in setex" /\
  Set_ "k" (VOther OChan) 0 w0
    = ((RNil, None), snd (Do "SETEX" [VString "k"; VInt 0; VString ""] w0)) /\
  fst (Set_ "k" (VString "") 0 w0)
    = (RNil, Some (Error "ERR invalid expire time in setex")).
Proof.
  split; [|split; [|split]];
    [vm_compute; reflexivity | vm_compute; reflexivity
    | reflexivity | vm_compute; reflexivity].
Qed.

End ReferenceRuns.

(** ** More on the lifecycle *)

Section LifecycleMore.
Import Lifecycle LifecycleInv.

(** X1. However many times [New] is called and with whatever arguments,
    the one handle carries the pool built from the first call's arguments
    with the fixed bounds (3 idle connections, 240 seconds), and one
    signal watcher has been started, for that handle. *)
Theorem New_configures_from_first_call (c : call) (cs : list call) :
  let g := snd (New_seq (c :: cs) start) in
  heap g = [ {| pool := mkPool 3 240 (c_ip c) (c_port c)
                               (c_password c) (c_db c) |} ] /\
  watchers g = [0%nat] /\
  redisInstance g = Some 0%nat.
Proof.
  cbv zeta. cbn [New_seq]. rewrite New_first.
  rewrite New_seq_after_once by reflexivity. cbn. auto.
Qed.

(** X2. From any consistent package state, [New] leaves a consistent
    state and returns a non-nil pointer to an allocated handle, which is
    what [GetInstance] returns afterwards. *)
Theorem New_keeps_consistent (g : globals) (c : call) :
  consistent g ->
  consistent (snd (New_call c g)) /\
  exists r,
    fst (New_call c g) = Some r /\
    GetInstance (snd (New_call c g)) = Returns r /\
    is_Some (heap (snd (New_call c g)) !! r).
Proof.
  unfold consistent, New_call, New, once_Do, GetInstance.
  destruct (redisInstance g) as [r|] eqn:Hinst.
  - intros (Hdone & Halloc & Hwatch). rewrite Hdone. cbn [fst snd].
    rewrite Hinst. split; [auto|]. exists r. auto.
  - intros Hdone. rewrite Hdone. cbn.
    assert (Hlook : is_Some
      ((heap g ++ [{| pool := mkPool 3 240 (c_ip c) (c_port c)
                                     (c_password c) (c_db c) |}])
         !! length (heap g))).
    { rewrite list_lookup_middle by reflexivity. eauto. }
    split.
    + split; [reflexivity|]. split; [exact Hlook|].
      apply in_or_app. right. now left.
    + eexists. split; [reflexivity|]. split; [reflexivity|exact Hlook].
Qed.

Lemma New_keeps_consistent_witness :
  consistent (snd (New_call (mkCall "localhost" 6379 "secret" 0) start)) /\
  exists r,
    fst (New_call (mkCall "localhost" 6379 "secret" 0) start) = Some r /\
    GetInstance (snd (New_call (mkCall "localhost" 6379 "secret" 0) start))
      = Returns r /\
    is_Some (heap (snd (New_call (mkCall "localhost" 6379 "secret" 0) start)) !! r).
Proof.
  apply (New_keeps_consistent start (mkCall "localhost" 6379 "secret" 0)).
  reflexivity.
Defined.

End LifecycleMore.

(** ** The dial closure *)

Section DialFacts.
Import Lifecycle Dialing.
Context {N : Net}.

(** X3. When [Dial] returns a connection, it returns no error with it,
    and what happened on the network is exactly: the transport was opened
    to [ip:port], [AUTH] was sent with the password and [SELECT] with the
    database index, both on the returned connection, in that order, and
    the connection was not closed. *)
Theorem Dial_success (p : Pool) (st : dial_state) (c : sock) :
  fst (fst (Dial p st)) = Some c ->
  snd (fst (Dial p st)) = None /\
  snd (snd (Dial p st)) =
    snd st ++ [NetDial "tcp" (dial_ip p +:+ ":" +:+ strconv.Itoa (dial_port p));
               NetDo c "AUTH" [VString (dial_password p)];
               NetDo c "SELECT" [VInt (dial_db p)]].
Proof.
  unfold Dial, do_on, close, address.
  destruct (redis_Dial _ _ (fst st)) as [[c0|e0] n1]; cbn [fst snd];
    [|discriminate].
  destruct (sock_Do c0 "AUTH" _ n1) as [[rep1 [e1|]] n2]; cbn [fst snd];
    [discriminate|].
  destruct (sock_Do c0 "SELECT" _ n2) as [[rep2 [e2|]] n3]; cbn [fst snd];
    [discriminate|].
  intros [= ->]. split; [reflexivity|].
  rewrite <- !app_assoc. reflexivity.
Qed.


End DialFacts.

Section DialRuns.
Import Lifecycle Dialing.

Lemma Dial_success_witness :
  snd (fst (Dial good_pool (server, []))) = None /\
  snd (snd (Dial good_pool (server, []))) =
    [] ++ [NetDial "tcp" "localhost:6379";
           NetDo 0%nat "AUTH" [VString "secret"];
           NetDo 0%nat "SELECT" [VInt 0]].
Proof.
  apply (Dial_success (N := refnet) good_pool (server, []) 0%nat).
  reflexivity.
Defined.


End DialRuns.

(** ** More on the operations, for an arbitrary collaborator *)

Section OperationFacts.
Import redisgo redisgo_rest.
Context {C : Collab}.

Local Abbreviation val := (value other).


(** X5. What [Get] returns is always the error of its fetch, and what
    [Hmget] returns is always the error of its fetch: no outcome of the
    decoder changes the returned value. *)
Theorem Get_returns_fetch_error (key : string) (dest : val) (w : world) :
  fst (Get key dest w) = snd (fst (GetString key w)) /\
  fst (Hmget key dest w)
    = snd (redis.Values (fst (Do "HGETALL" [VString key] w))).
Proof.
  split.
  - unfold Get, bind. destruct (GetString key w) as [[text [e|]] w1];
      cbn [fst snd]; [reflexivity|].
    unfold Unmarshal, ret.
    now destruct (json_Unmarshal text dest (w_memory w1)).
  - unfold Hmget, bind. destruct (Do "HGETALL" [VString key] w) as [x w1].
    unfold ret at 1. cbn [fst snd].
    destruct (redis.Values x) as [vs [e|]]; cbn [snd]; [reflexivity|].
    unfold Scan. destruct (ScanStruct vs dest (w_memory w1)) as [[e'|] m'];
      reflexivity.
Qed.

(** X6. When the fetch of [Hmget] fails with [e], [Hmget] returns [e];
    the caller's memory is what it was, the scanner has not run and
    nothing was printed: the trace holds the [HGETALL] command alone. *)
Theorem Hmget_failed_fetch_frame (key : string) (dest : val) (w : world)
    (e : error) :
  snd (redis.Values (fst (Do "HGETALL" [VString key] w))) = Some e ->
  fst (Hmget key dest w) = Some e /\
  w_remote (snd (Hmget key dest w))
    = w_remote (snd (Do "HGETALL" [VString key] w)) /\
  w_memory (snd (Hmget key dest w)) = w_memory w /\
  w_trace (snd (Hmget key dest w))
    = w_trace w ++ [EvDo "HGETALL" [VString key]].
Proof.
  intros Hfail. unfold Hmget, bind.
  pose proof (Do_memory "HGETALL" [VString key] w) as Hmem.
  pose proof (Do_trace "HGETALL" [VString key] w) as Htr.
  destruct (Do "HGETALL" [VString key] w) as [x w1].
  unfold ret at 1. cbn [fst snd] in *.
  destruct (redis.Values x) as [vs err]. cbn [snd] in Hfail. subst err.
  cbn [ret fst snd]. auto.
Qed.

(** X7. When the fetch succeeds and the decoder succeeds, [Get] and
    [Hmget] return nil, the caller's memory is the one the decoder
    produced from the memory before the call, and the trace holds the
    command and the decoder run; [Hmget] prints nothing. *)
Theorem decode_success_updates_memory (key : string) (dest : val) (w : world) :
  (forall text m',
      fst (GetString key w) = (text, None) ->
      json_Unmarshal text dest (w_memory w) = (None, m') ->
      Get key dest w =
        (None, {| w_remote := w_remote (snd (GetString key w));
                  w_memory := m';
                  w_trace := w_trace w ++ [EvDo "GET" [VString key];
                                           EvUnmarshal text dest] |})) /\
  (forall vs m',
      redis.Values (fst (Do "HGETALL" [VString key] w)) = (vs, None) ->
      ScanStruct vs dest (w_memory w) = (None, m') ->
      Hmget key dest w =
        (None, {| w_remote := w_remote (snd (Do "HGETALL" [VString key] w));
                  w_memory := m';
                  w_trace := w_trace w ++ [EvDo "HGETALL" [VString key];
                                           EvScanStruct vs dest] |})).
Proof.
  split.
  - intros text m' Hfetch Hdec.
    unfold Get, bind. rewrite GetString_unfold in *. cbn [fst snd] in *.
    rewrite Hfetch. unfold Unmarshal, ret.
    rewrite Do_memory, Do_trace, Hdec, <- app_assoc. reflexivity.
  - intros vs m' Hvals Hscan.
    unfold Hmget, bind.
    pose proof (Do_memory "HGETALL" [VString key] w) as Hmem.
    pose proof (Do_trace "HGETALL" [VString key] w) as Htr.
    destruct (Do "HGETALL" [VString key] w) as [x w1].
    cbn [fst snd] in *. unfold ret at 1. rewrite Hvals.
    unfold Scan. rewrite Hmem, Hscan. unfold ret.
    cbn [w_remote w_memory w_trace]. rewrite Htr, <- !app_assoc. reflexivity.
Qed.

(** X8. A key the store answers nil for is reported as [redis.ErrNil]
    with the zero value by [GetString] and [GetInt], and by [Get], which
    then leaves the caller's memory as it was. *)
Theorem missing_key_is_ErrNil (key : string) (w : world) :
  fst (Do "GET" [VString key] w) = (RNil, None) ->
  fst (GetString key w) = (EmptyString, Some ErrNil) /\
  fst (GetInt key w) = (0, Some ErrNil) /\
  forall dest : val,
    fst (Get key dest w) = Some ErrNil /\
    w_memory (snd (Get key dest w)) = w_memory w.
Proof.
  intros Hnil.
  assert (Hs : fst (GetString key w) = (EmptyString, Some ErrNil)).
  { rewrite GetString_unfold. cbn [fst]. now rewrite Hnil. }
  split; [exact Hs|]. split.
  - rewrite GetInt_unfold. cbn [fst]. now rewrite Hnil.
  - intros dest. unfold Get, bind.
    rewrite GetString_unfold in *. cbn [fst snd] in *. rewrite Hnil.
    cbn [redis.String ret fst snd]. split; [reflexivity|apply Do_memory].
Qed.


(** X10. When the connection answers with the integer [n] and no error:
    [Exists] tells whether [n] is not zero; [Ttl], the counters and the
    ranks return [n] as it is, negative values included; [Expire] and
    [Del] return nil whatever [n] is, zero included. *)
Theorem integer_reply_interpretation (key member : string) (k n : Z)
    (w : world) :
  (fst (Do "EXISTS" [VString key] w) = (RInt64 n, None) ->
     fst (Exists key w) = (negb (n =? 0), None)) /\
  (fst (Do "TTL" [VString key] w) = (RInt64 n, None) ->
     fst (Ttl key w) = (n, None)) /\
  (fst (Do "INCR" [VString key] w) = (RInt64 n, None) ->
     fst (Incr key w) = (n, None)) /\
  (fst (Do "INCRBY" [VString key; VInt k] w) = (RInt64 n, None) ->
     fst (IncrBy key k w) = (n, None)) /\
  (fst (Do "DECR" [VString key] w) = (RInt64 n, None) ->
     fst (Decr key w) = (n, None)) /\
  (fst (Do "DECRBY" [VString key; VInt k] w) = (RInt64 n, None) ->
     fst (DecrBy key k w) = (n, None)) /\
  (fst (Do "ZRANK" [VString key; VString member] w) = (RInt64 n, None) ->
     fst (Zrank key member w) = (n, None)) /\
  (fst (Do "ZREVRANK" [VString key; VString member] w) = (RInt64 n, None) ->
     fst (Zrevrank key member w) = (n, None)) /\
  (fst (Do "EXPIRE" [VString key; VInt k] w) = (RInt64 n, None) ->
     fst (Expire key k w) = None) /\
  (fst (Do "DEL" [VString key] w) = (RInt64 n, None) ->
     fst (Del key w) = None).
Proof.
  repeat split; intros Hrep;
    unfold Exists, Del, Ttl, Incr, IncrBy, Decr, DecrBy, Zrank, Zrevrank,
           Expire, bind, ret;
    match goal with
    | |- context [Do ?c ?a w] =>
        destruct (Do c a w) as [x w1]; cbn [fst snd] in *; subst x
    end; reflexivity.
Qed.

(** X11. The first result of [Set] is nil for every value and every
    answer of the store: the status the store replied with is dropped. *)
Theorem Set_reply_always_nil (key : string) (v : val) (expire : Z) (w : world) :
  fst (fst (Set_ key v expire w)) = RNil.
Proof.
  destruct v as [s|n|n|o].
  - now rewrite Set_plain_returns_command_error.
  - now rewrite Set_plain_returns_command_error.
  - now rewrite Set_default_returns_nil.
  - now rewrite Set_default_returns_nil.
Qed.


End OperationFacts.

(** ** Reading back what [Set] wrote, whatever the value *)

Section AfterSet.
Import redisgo redisgo_rest.
Context {C : Collab}.

Local Abbreviation val := (value other).

Lemma wire_sent_arg (v : val) mem :
  redis.wire (sent_arg v mem) = Some (sent_text v mem).
Proof. now destruct v. Qed.

Lemma Set_world key (v : val) expire w :
  snd (Set_ key v expire w)
    = snd (Do "SETEX" [VString key; VInt expire; sent_arg v (w_memory w)] w).
Proof.
  destruct v as [s|n|n|o]; cbn [Set_ sent_arg]; unfold bind, read_memory, ret;
    try match goal with |- context [json_Marshal ?x ?m] =>
      destruct (json_Marshal x m) as [b|e] end;
    match goal with |- context [Do ?n ?a w] =>
      now destruct (Do n a w) as [[? ?] ?] end.
Qed.

(** After an acknowledged [SETEX] of [Set], over a store that keeps what
    it acknowledged, the next [GET] of the key replies with the text
    that [Set] sent. *)
Lemma GET_after_Set key (v : val) expire w :
  keeps_text ->
  snd (fst (Do "SETEX" [VString key; VInt expire; sent_arg v (w_memory w)] w))
    = None ->
  fst (Do "GET" [VString key] (snd (Set_ key v expire w)))
    = (RBytes (sent_text v (w_memory w)), None).
Proof.
  intros Hstore Hok. rewrite Set_world.
  rewrite Do_unfold in Hok. cbn [fst] in Hok.
  rewrite (Do_unfold "GET"). cbn [fst]. rewrite (Do_unfold "SETEX").
  cbn [snd w_remote].
  destruct (Do_remote "SETEX" _ (w_remote w)) as [[rep err] r1] eqn:Hsetex.
  cbn [fst snd] in *. subst err.
  exact (Hstore key expire _ _ rep (w_remote w) r1
           (wire_sent_arg v (w_memory w)) Hsetex).
Qed.

(** X13. Over a store that keeps what it acknowledged, after a [Set]
    whose [SETEX] was acknowledged, [GetString] returns the text that
    [Set] sent (for an int, its decimal writing; for a value that is
    neither string nor int, its JSON text) and [GetInt] returns what
    [strconv.ParseInt] makes of that text, error included. *)
Theorem getters_after_Set (key : string) (v : val) (expire : Z) (w : world) :
  keeps_text ->
  snd (fst (Do "SETEX" [VString key; VInt expire; sent_arg v (w_memory w)] w))
    = None ->
  fst (GetString key (snd (Set_ key v expire w)))
    = (sent_text v (w_memory w), None) /\
  fst (GetInt key (snd (Set_ key v expire w)))
    = (fst (strconv.ParseInt (sent_text v (w_memory w))),
       option_map NumError (snd (strconv.ParseInt (sent_text v (w_memory w))))).
Proof.
  intros Hstore Hok. split.
  - rewrite GetString_unfold. cbn [fst].
    now rewrite (GET_after_Set key v expire w Hstore Hok).
  - rewrite GetInt_unfold. cbn [fst].
    rewrite (GET_after_Set key v expire w Hstore Hok).
    unfold redis.Int. now destruct (strconv.ParseInt _).
Qed.

(** X14. Under the same conditions, [Get] runs [json.Unmarshal] on
    exactly the text that [Set] sent, once, on the caller's memory as it
    was before the [Set]; it returns nil whatever the decoder said, and
    the memory is the decoder's.  A string stored by [Set] thus reaches
    the decoder as it is, not as JSON text. *)
Theorem Get_after_Set_decodes_sent_text (key : string) (v dest : val)
    (expire : Z) (w : world) :
  keeps_text ->
  snd (fst (Do "SETEX" [VString key; VInt expire; sent_arg v (w_memory w)] w))
    = None ->
  let text := sent_text v (w_memory w) in
  let after := Get key dest (snd (Set_ key v expire w)) in
  fst after = None /\
  w_memory (snd after) = snd (json_Unmarshal text dest (w_memory w)) /\
  w_trace (snd after) =
    w_trace w ++ [EvDo "SETEX" [VString key; VInt expire;
                                sent_arg v (w_memory w)];
                  EvDo "GET" [VString key];
                  EvUnmarshal text dest].
Proof.
  intros Hstore Hok. cbv zeta.
  pose proof (GET_after_Set key v expire w Hstore Hok) as Hget.
  assert (Hmem : w_memory (snd (Set_ key v expire w)) = w_memory w)
    by (rewrite Set_world; apply Do_memory).
  assert (Htr : w_trace (snd (Set_ key v expire w))
                = w_trace w ++ [EvDo "SETEX" [VString key; VInt expire;
                                              sent_arg v (w_memory w)]])
    by (rewrite Set_world; apply Do_trace).
  unfold Get, bind. rewrite GetString_unfold. rewrite Hget.
  cbn [redis.String]. unfold Unmarshal, ret.
  rewrite Do_memory, Do_trace, Hmem, Htr.
  destruct (json_Unmarshal (sent_text v (w_memory w)) dest (w_memory w))
    as [err m'].
  cbn [fst snd w_memory w_trace]. rewrite <- !app_assoc.
  split; [reflexivity|]. split; reflexivity.
Qed.

End AfterSet.

(** ** More on decimal text *)

Section StrconvMore.
Import strconv.

Lemma ParseUint_loop_bounds s : forall n,
  0 <= n <= maxUint64 ->
  0 <= fst (ParseUint_loop s n) <= maxUint64.
Proof.
  induction s as [|c s IH]; intros n Hn; cbn [ParseUint_loop].
  - exact Hn.
  - unfold digit_val.
    destruct ((48 <=? Z.of_nat (nat_of_ascii c))
              && (Z.of_nat (nat_of_ascii c) <=? 57)) eqn:Hdigit.
    + apply andb_prop in Hdigit as [Hlo Hhi].
      apply Z.leb_le in Hlo. apply Z.leb_le in Hhi.
      destruct (maxUint64 <? n * 10 + (Z.of_nat (nat_of_ascii c) - 48)) eqn:F.
      * cbn [fst]. unfold maxUint64. lia.
      * apply Z.ltb_ge in F. apply IH. lia.
    + cbn [fst]. unfold maxUint64. lia.
Qed.

(** Whatever the text, the number [strconv.ParseInt] returns is an
    [int]: within the 64-bit range, also when it reports a range error;
    and it is 0 when it reports a syntax error. *)
Lemma ParseInt_in_range (s : string) :
  is_int (fst (ParseInt s)) /\
  (snd (ParseInt s) = Some ErrSyntax -> fst (ParseInt s) = 0).
Proof.
  assert (Hzero : is_int 0) by (unfold is_int, minInt, maxInt; lia).
  assert (Hbound : forall t, 0 <= fst (ParseUint t) <= maxUint64).
  { intros [|c t]; [cbn; unfold maxUint64; lia|].
    unfold ParseUint. apply ParseUint_loop_bounds. unfold maxUint64. lia. }
  assert (Hcut : forall (neg : bool) t,
    let r := let '(un, err) := ParseUint t in
             match err with
             | Some ErrSyntax => (0, err)
             | _ =>
                 let cutoff := 2 ^ (intSize - 1) in
                 if negb neg && (cutoff <=? un) then (cutoff - 1, Some ErrRange)
                 else if neg && (cutoff <? un) then (- cutoff, Some ErrRange)
                 else (if neg then - un else un, None)
             end in
    is_int (fst r) /\ (snd r = Some ErrSyntax -> fst r = 0)).
  { intros neg t. cbv zeta. specialize (Hbound t).
    destruct (ParseUint t) as [un [[|]|]]; cbn [fst] in Hbound.
    - split; [exact Hzero|reflexivity].
    - unfold intSize, is_int, minInt, maxInt.
      destruct neg; cbn [negb andb];
        repeat match goal with
               | |- context [if ?b then _ else _] => destruct b eqn:?
               end; cbn [fst snd]; split; try discriminate;
        rewrite ?Z.leb_le, ?Z.leb_gt, ?Z.ltb_lt, ?Z.ltb_ge in *; lia.
    - unfold intSize, is_int, minInt, maxInt.
      destruct neg; cbn [negb andb];
        repeat match goal with
               | |- context [if ?b then _ else _] => destruct b eqn:?
               end; cbn [fst snd]; split; try discriminate;
        rewrite ?Z.leb_le, ?Z.leb_gt, ?Z.ltb_lt, ?Z.ltb_ge in *; lia. }
  destruct s as [|c0 s1].
  - cbn. split; [exact Hzero|reflexivity].
  - unfold ParseInt.
    destruct (Ascii.eqb c0 "+"); [apply (Hcut false s1)|].
    destruct (Ascii.eqb c0 "-"); [apply (Hcut true s1)|].
    apply (Hcut false (String c0 s1)).
Qed.

(** Two different [int]s never have the same decimal text. *)
Lemma Itoa_injective (a b : Z) :
  is_int a -> is_int b -> Itoa a = Itoa b -> a = b.
Proof.
  intros Ha Hb Heq.
  pose proof (ParseInt_Itoa a Ha) as Hpa.
  pose proof (ParseInt_Itoa b Hb) as Hpb.
  rewrite Heq in Hpa. congruence.
Qed.

End StrconvMore.

(** ** What [GetInt] makes of a text reply *)

Section GetIntFacts.
Import redisgo.
Context {C : Collab}.

(** X15. When the store answers [GET] with a text, whatever the text,
    the number [GetInt] returns is within the range of [int], also when
    it comes with a range error, and it is 0 when it comes with a syntax
    error. *)
Theorem GetInt_of_text_in_range (key : string) (w : world) (b : string) :
  fst (Do "GET" [VString key] w) = (RBytes b, None) ->
  strconv.is_int (fst (fst (GetInt key w))) /\
  (snd (fst (GetInt key w)) = Some (NumError strconv.ErrSyntax) ->
   fst (fst (GetInt key w)) = 0).
Proof.
  intros Hrep. rewrite GetInt_unfold. cbn [fst]. rewrite Hrep.
  unfold redis.Int. destruct (ParseInt_in_range b) as [Hrange Hsyntax].
  destruct (strconv.ParseInt b) as [n [e|]]; cbn [fst snd option_map] in *.
  - split; [exact Hrange|]. intros [= ->]. now apply Hsyntax.
  - split; [exact Hrange|discriminate].
Qed.

End GetIntFacts.

(** ** More runs against the reference and the scripted collaborators *)

Section OperationRuns.
Import redisgo redisgo_rest Reference Scripted.

Lemma Hmget_failed_fetch_frame_witness :
  fst (Hmget "h" (VOther (ORef 1)) w_down)
    = Some (Error "dial tcp: connection refused") /\
  w_remote (snd (Hmget "h" (VOther (ORef 1)) w_down))
    = w_remote (snd (Do "HGETALL" [VString "h"] w_down)) /\
  w_memory (snd (Hmget "h" (VOther (ORef 1)) w_down)) = w_memory w_down /\
  w_trace (snd (Hmget "h" (VOther (ORef 1)) w_down))
    = w_trace w_down ++ [EvDo "HGETALL" [VString "h"]].
Proof.
  apply (Hmget_failed_fetch_frame (C := ref) "h" (VOther (ORef 1)) w_down
           (Error "dial tcp: connection refused")).
  vm_compute; reflexivity.
Defined.

Lemma decode_success_updates_memory_witness :
  w_memory (snd (Get "k" (VOther (ORef 0))
                     (snd (Set_ "k" (VInt 42) 60 w0)))) !! 0%nat
    = Some (CInt 42) /\
  w_memory (snd (Hmget "h" (VOther (ORef 1)) w_hash)) !! 1%nat
    = Some (CFields [("y", "2"); ("x", "1")]%string).
Proof.
  destruct (decode_success_updates_memory (C := ref)
              "k" (VOther (ORef 0)) (snd (Set_ "k" (VInt 42) 60 w0)))
    as [HGet _].
  destruct (decode_success_updates_memory (C := ref)
              "h" (VOther (ORef 1)) w_hash) as [_ HHmget].
  split.
  - rewrite (HGet "42"%string (<[0%nat := CInt 42]> (w_memory w0)));
      [vm_compute; reflexivity | vm_compute; reflexivity
      | vm_compute; reflexivity].
  - rewrite (HHmget [RBytes "y"; RBytes "2"; RBytes "x"; RBytes "1"]%string
                    (<[1%nat := CFields [("y", "2"); ("x", "1")]%string]>
                       (w_memory w0)));
      [vm_compute; reflexivity | vm_compute; reflexivity
      | vm_compute; reflexivity].
Defined.

Lemma missing_key_is_ErrNil_witness :
  fst (GetString "k" w0) = (EmptyString, Some ErrNil) /\
  fst (GetInt "k" w0) = (0, Some ErrNil) /\
  fst (Get "k" (VOther (ORef 0)) w0) = Some ErrNil /\
  w_memory (snd (Get "k" (VOther (ORef 0)) w0)) = w_memory w0.
Proof.
  destruct (missing_key_is_ErrNil (C := ref) "k" w0) as (Hs & Hi & Hg).
  - vm_compute; reflexivity.
  - split; [exact Hs|]. split; [exact Hi|]. exact (Hg (VOther (ORef 0))).
Defined.


Lemma integer_reply_interpretation_witness :
  fst (Exists "k" (blank (RInt64 0, None))) = (false, None) /\
  fst (Ttl "k" (blank (RInt64 (-2), None))) = (-2, None) /\
  fst (Incr "k" (blank (RInt64 7, None))) = (7, None) /\
  fst (IncrBy "k" 5 (blank (RInt64 7, None))) = (7, None) /\
  fst (Decr "k" (blank (RInt64 7, None))) = (7, None) /\
  fst (DecrBy "k" 5 (blank (RInt64 7, None))) = (7, None) /\
  fst (Zrank "k" "a" (blank (RInt64 0, None))) = (0, None) /\
  fst (Zrevrank "k" "a" (blank (RInt64 1, None))) = (1, None) /\
  fst (Expire "k" 10 w0) = None /\
  fst (Del "k" (blank (RInt64 0, None))) = None.
Proof.
  pose proof (integer_reply_interpretation (C := scripted (RInt64 0, None))
                "k" "a" 5 0 (blank (RInt64 0, None))) as H0.
  pose proof (integer_reply_interpretation (C := scripted (RInt64 (-2), None))
                "k" "a" 5 (-2) (blank (RInt64 (-2), None))) as H2.
  pose proof (integer_reply_interpretation (C := scripted (RInt64 7, None))
                "k" "a" 5 7 (blank (RInt64 7, None))) as H7.
  pose proof (integer_reply_interpretation (C := scripted (RInt64 1, None))
                "k" "a" 5 1 (blank (RInt64 1, None))) as H1.
  pose proof (integer_reply_interpretation (C := ref) "k" "a" 10 0 w0) as Hr.
  destruct H0 as (HE & _ & _ & _ & _ & _ & HZ & _ & _ & HD).
  destruct H2 as (_ & HT & _).
  destruct H7 as (_ & _ & HI & HIB & HDe & HDB & _).
  destruct H1 as (_ & _ & _ & _ & _ & _ & _ & HZR & _).
  destruct Hr as (_ & _ & _ & _ & _ & _ & _ & _ & HX & _).
  repeat apply conj;
    [ apply HE | apply HT | apply HI | apply HIB | apply HDe | apply HDB
    | apply HZ | apply HZR | apply HX; vm_compute | apply HD ]; reflexivity.
Defined.

Lemma getters_after_Set_witness :
  fst (GetString "k" (snd (Set_ "k" (VInt 42) 60 w0))) = ("42"%string, None) /\
  fst (GetInt "k" (snd (Set_ "k" (VString "abc") 60 w0)))
    = (0, Some (NumError strconv.ErrSyntax)).
Proof.
  split.
  - apply (getters_after_Set (C := ref) "k" (VInt 42) 60 w0 ref_keeps_text).
    vm_compute; reflexivity.
  - apply (getters_after_Set (C := ref) "k" (VString "abc") 60 w0
             ref_keeps_text).
    vm_compute; reflexivity.
Defined.

Lemma Get_after_Set_decodes_sent_text_witness :
  fst (Get "k" (VOther (ORef 0)) (snd (Set_ "k" (VString "abc") 60 w0))) = None /\
  w_memory (snd (Get "k" (VOther (ORef 0))
                     (snd (Set_ "k" (VString "abc") 60 w0))))
    = snd (json_Unmarshal "abc" (VOther (ORef 0)) (w_memory w0)) /\
  w_trace (snd (Get "k" (VOther (ORef 0))
                    (snd (Set_ "k" (VString "abc") 60 w0)))) =
    w_trace w0 ++ [EvDo "SETEX" [VString "k"; VInt 60; VString "abc"];
                   EvDo "GET" [VString "k"];
                   EvUnmarshal "abc" (VOther (ORef 0))].
Proof.
  apply (Get_after_Set_decodes_sent_text (C := ref) "k" (VString "abc")
           (VOther (ORef 0)) 60 w0 ref_keeps_text).
  vm_compute; reflexivity.
Defined.

Lemma GetInt_of_text_in_range_witness :
  strconv.is_int (fst (fst (GetInt "k" w_abc))) /\
  fst (fst (GetInt "k" w_abc)) = 0.
Proof.
  destruct (GetInt_of_text_in_range (C := ref) "k" w_abc "abc")
    as [Hrange Hsyntax].
  - vm_compute; reflexivity.
  - split; [exact Hrange|]. apply Hsyntax. vm_compute; reflexivity.
Defined.

End OperationRuns.
